(** * Vault view of the password manager (App.vue, script part)

    A shallow embedding of the [<script setup>] block of [src/App.vue]: the
    reactive refs become one [State] record, every [async function] becomes a
    computation in a small monad that threads the state, may throw, and may
    suspend on a request to the Tauri backend ([invoke]) or on the browser's
    [confirm] dialog.

    Conventions.
    - A JS string is a [string]; the Cyrillic literals of the source are kept
      byte for byte (UTF-8).
    - An optional field ([url?: string]) is an [option string]; [None] stands
      for both [undefined] and [null], which the code never tells apart.
    - A rejected promise carries a value that the code only ever renders
      through a template literal; it is modelled by that rendering.
    - An operation is run from its call to its completion; handlers of other
      user actions are not interleaved at its [await] points. *)

From Stdlib Require Import String Ascii List Bool ZArith Lia.
Import ListNotations.
Local Open Scope string_scope.
Local Open Scope list_scope.

(** ** Data model *)

(** [interface PasswordEntry] *)
Record PasswordEntry : Type := {
  name : string;
  username : string;
  password : string;
  url : option string;
  notes : option string
}.

(** The refs declared at the top of the script. *)
Record State : Type := {
  passwords : list PasswordEntry;
  showAddForm : bool;
  searchQuery : string;
  selectedPassword : option PasswordEntry;
  showPassword : bool;
  errorMessage : string;
  newPassword : PasswordEntry;
  passwordLength : Z
}.

(** The object literal assigned to [newPassword] at start-up and on reset. *)
Definition emptyEntry : PasswordEntry :=
  {| name := ""; username := ""; password := ""; url := Some ""; notes := Some "" |}.

Definition initialState : State :=
  {| passwords := [];
     showAddForm := false;
     searchQuery := "";
     selectedPassword := None;
     showPassword := false;
     errorMessage := "";
     newPassword := emptyEntry;
     passwordLength := 16 |}.

(** Assignments to single refs ([x.value = v]). *)
Definition set_passwords (v : list PasswordEntry) (s : State) : State :=
  {| passwords := v;
     showAddForm := showAddForm s;
     searchQuery := searchQuery s;
     selectedPassword := selectedPassword s;
     showPassword := showPassword s;
     errorMessage := errorMessage s;
     newPassword := newPassword s;
     passwordLength := passwordLength s |}.

Definition set_showAddForm (v : bool) (s : State) : State :=
  {| passwords := passwords s;
     showAddForm := v;
     searchQuery := searchQuery s;
     selectedPassword := selectedPassword s;
     showPassword := showPassword s;
     errorMessage := errorMessage s;
     newPassword := newPassword s;
     passwordLength := passwordLength s |}.

Definition set_selectedPassword (v : option PasswordEntry) (s : State) : State :=
  {| passwords := passwords s;
     showAddForm := showAddForm s;
     searchQuery := searchQuery s;
     selectedPassword := v;
     showPassword := showPassword s;
     errorMessage := errorMessage s;
     newPassword := newPassword s;
     passwordLength := passwordLength s |}.

Definition set_errorMessage (v : string) (s : State) : State :=
  {| passwords := passwords s;
     showAddForm := showAddForm s;
     searchQuery := searchQuery s;
     selectedPassword := selectedPassword s;
     showPassword := showPassword s;
     errorMessage := v;
     newPassword := newPassword s;
     passwordLength := passwordLength s |}.

Definition set_newPassword (v : PasswordEntry) (s : State) : State :=
  {| passwords := passwords s;
     showAddForm := showAddForm s;
     searchQuery := searchQuery s;
     selectedPassword := selectedPassword s;
     showPassword := showPassword s;
     errorMessage := errorMessage s;
     newPassword := v;
     passwordLength := passwordLength s |}.

(** [entry.password = v], the in-place write of [generatePassword].  The
    draft object is only ever created by an object literal and is never put
    into the collection or the selection, so writing it in place touches no
    other entry and a copy with one field changed says the same. *)
Definition set_password (v : string) (p : PasswordEntry) : PasswordEntry :=
  {| name := name p; username := username p; password := v;
     url := url p; notes := notes p |}.

(** ** JavaScript coercions used by the script *)

(** Truthiness of a string: only [""] is falsy. *)
Definition truthy (x : string) : bool :=
  match x with
  | EmptyString => false
  | String _ _ => true
  end.

(** Truthiness of an optional string: [undefined], [null] and [""] are falsy. *)
Definition truthy_opt (x : option string) : bool :=
  match x with
  | Some v => truthy v
  | None => false
  end.

(** [x || null] on an optional string. *)
Definition or_null (x : option string) : option string :=
  if truthy_opt x then x else None.

(** ** The backend boundary *)

(** The argument object of [invoke("add_password", {...})]; [None] is [null]. *)
Module AddPassword.
Record args : Type := {
  name : string;
  username : string;
  password : string;
  url : option string;
  notes : option string
}.
End AddPassword.

(** The four commands the script invokes, with their argument objects. *)
Inductive Command : Type :=
| get_passwords
| add_password (a : AddPassword.args)
| delete_password (name : string)
| generate_password (length : Z).

(** What a command resolves to ([invoke<T>]). *)
Definition Reply (c : Command) : Type :=
  match c with
  | get_passwords => list PasswordEntry
  | add_password _ => unit
  | delete_password _ => unit
  | generate_password _ => string
  end.

(** Settlement of a promise. *)
Inductive Result (T : Type) : Type :=
| Resolved (v : T)
| Rejected (error : string).
Arguments Resolved {T} v.
Arguments Rejected {T} error.

(** ** Suspendable computations

    A computation either is finished, or waits for the backend to settle a
    command, or waits for the user to answer a [confirm] dialog.  The state
    the view shows while it waits is recorded in the node. *)
Inductive Async (A : Type) : Type :=
| Done (a : A)
| Await (visible : State) (c : Command) (k : Result (Reply c) -> Async A)
| Confirm (visible : State) (message : string) (k : bool -> Async A).
Arguments Done {A} a.
Arguments Await {A} visible c k.
Arguments Confirm {A} visible message k.

Fixpoint Async_bind {A B : Type} (m : Async A) (f : A -> Async B) : Async B :=
  match m with
  | Done a => f a
  | Await v c k => Await v c (fun r => Async_bind (k r) f)
  | Confirm v msg k => Confirm v msg (fun b => Async_bind (k b) f)
  end.

(** How a block of statements completes. *)
Inductive Completion (A : Type) : Type :=
| Normal (a : A)
| Throw (error : string).
Arguments Normal {A} a.
Arguments Throw {A} error.

(** The monad of the script's functions. *)
Definition M (A : Type) : Type := State -> Async (Completion A * State).

Definition ret {A : Type} (a : A) : M A :=
  fun s => Done (Normal a, s).

Definition bind {A B : Type} (m : M A) (f : A -> M B) : M B :=
  fun s =>
    Async_bind (m s)
      (fun r =>
         match r with
         | (Normal a, s') => f a s'
         | (Throw e, s') => Done (Throw e, s')
         end).

Notation "x <- c1 ;; c2" := (bind c1 (fun x => c2))
  (at level 61, c1 at next level, right associativity).
Notation "c1 ;; c2" := (bind c1 (fun _ => c2))
  (at level 61, right associativity).

(** Reading the refs. *)
Definition get : M State :=
  fun s => Done (Normal s, s).

(** Writing a ref. *)
Definition modify (f : State -> State) : M unit :=
  fun s => Done (Normal tt, f s).

(** [await invoke(c)]: resumes with the value, or throws the rejection. *)
Definition invoke (c : Command) : M (Reply c) :=
  fun s =>
    Await s c
      (fun r =>
         match r with
         | Resolved v => Done (Normal v, s)
         | Rejected e => Done (Throw e, s)
         end).

(** [confirm(message)] *)
Definition confirm (message : string) : M bool :=
  fun s => Confirm s message (fun b => Done (Normal b, s)).

(** [try { body } catch (error) { handler }] *)
Definition try_catch {A : Type} (body : M A) (handler : string -> M A) : M A :=
  fun s =>
    Async_bind (body s)
      (fun r =>
         match r with
         | (Normal a, s') => Done (Normal a, s')
         | (Throw e, s') => handler e s'
         end).

(** ** The functions of the script *)

(** The character U+0022, which the confirmation text puts around the name. *)
Definition quote : string := String (ascii_of_nat 34) EmptyString.

(** [async function loadPasswords()], lines 36-42. *)
Definition loadPasswords : M unit :=
  try_catch
    (v <- invoke get_passwords ;;
     modify (set_passwords v))
    (fun error =>
       modify (set_errorMessage ("Ошибка при загрузке паролей: " ++ error))).

(** The argument object [addPassword] builds from the draft. *)
Definition add_password_args (draft : PasswordEntry) : AddPassword.args :=
  {| AddPassword.name := name draft;
     AddPassword.username := username draft;
     AddPassword.password := password draft;
     AddPassword.url := or_null (url draft);
     AddPassword.notes := or_null (notes draft) |}.

(** [async function addPassword()], lines 44-68. *)
Definition addPassword : M unit :=
  try_catch
    (s <- get ;;
     invoke (add_password (add_password_args (newPassword s))) ;;
     modify (set_newPassword emptyEntry) ;;
     modify (set_showAddForm false) ;;
     loadPasswords)
    (fun error =>
       modify (set_errorMessage ("Ошибка при добавлении пароля: " ++ error))).

(** [selectedPassword.value?.name === name] *)
Definition selected_name_is (s : State) (n : string) : bool :=
  match selectedPassword s with
  | Some p => String.eqb (name p) n
  | None => false
  end.

(** The template literal shown by the confirmation dialog. *)
Definition confirm_text (name : string) : string :=
  "Вы уверены, что хотите удалить запись " ++ quote ++ name ++ quote ++ "?".

(** [async function deletePassword(name)], lines 70-82. *)
Definition deletePassword (name : string) : M unit :=
  ok <- confirm (confirm_text name) ;;
  if ok then
    try_catch
      (invoke (delete_password name) ;;
       loadPasswords ;;
       s <- get ;;
       if selected_name_is s name
       then modify (set_selectedPassword None)
       else ret tt)
      (fun error =>
         modify (set_errorMessage ("Ошибка при удалении пароля: " ++ error)))
  else ret tt.

(** [async function generatePassword()], lines 84-90.  The target of the
    assignment is the draft object, which is looked up before the request is
    sent; in a run without interleaving it is still the draft afterwards. *)
Definition generatePassword : M unit :=
  try_catch
    (s <- get ;;
     v <- invoke (generate_password (passwordLength s)) ;;
     modify (fun s' => set_newPassword (set_password v (newPassword s')) s'))
    (fun error =>
       modify (set_errorMessage ("Ошибка при генерации пароля: " ++ error))).

(** ** String search

    [s.includes(t)]: [t] occurs in [s] at some position. *)
Fixpoint startsWith (s t : string) {struct t} : bool :=
  match t with
  | EmptyString => true
  | String b t' =>
      match s with
      | EmptyString => false
      | String a s' => Ascii.eqb a b && startsWith s' t'
      end
  end.

Fixpoint includes (s t : string) : bool :=
  startsWith s t ||
  match s with
  | EmptyString => false
  | String _ s' => includes s' t
  end.

Section Filter.

(** [String.prototype.toLowerCase] is a primitive of the platform; the
    filter is written against any implementation of it. *)
Variable toLowerCase : string -> string.

(** The arrow function handed to [Array.prototype.filter]; [query] is
    already lower-cased. *)
Definition matches (query : string) (p : PasswordEntry) : bool :=
  includes (toLowerCase (name p)) query
  || includes (toLowerCase (username p)) query
  || match url p with
     | Some u => truthy u && includes (toLowerCase u) query
     | None => false
     end.

(** [function getFilteredPasswords()], lines 102-111. *)
Definition getFilteredPasswords : M (list PasswordEntry) :=
  s <- get ;;
  if negb (truthy (searchQuery s)) then ret (passwords s)
  else
    let query := toLowerCase (searchQuery s) in
    ret (filter (matches query) (passwords s)).

End Filter.

(** Lower-casing restricted to the letters A-Z, every other byte kept: the
    instance used to evaluate the filter on concrete inputs. *)
Definition lower_ascii (a : ascii) : ascii :=
  let n := nat_of_ascii a in
  if (65 <=? n)%nat && (n <=? 90)%nat then ascii_of_nat (n + 32) else a.

Fixpoint toLowerCase_latin (s : string) : string :=
  match s with
  | EmptyString => EmptyString
  | String a s' => String (lower_ascii a) (toLowerCase_latin s')
  end.

(** ** Running a computation against an environment

    The backend and the user are an arbitrary state machine [W]: it settles
    each command and answers each dialog, and may change while doing so. *)
Record Environment (W : Type) : Type := {
  settle : forall c : Command, W -> Result (Reply c) * W;
  answer : string -> W -> bool * W
}.
Arguments settle {W} e c w.
Arguments answer {W} e message w.

(** What crossed the boundary, in order, with the state the view showed at
    that moment. *)
Inductive Event : Type :=
| Invoked (visible : State) (c : Command)
| Asked (visible : State) (message : string) (reply : bool).

Fixpoint run {W A : Type} (env : Environment W) (m : Async A) (w : W)
  : A * W * list Event :=
  match m with
  | Done a => (a, w, [])
  | Await v c k =>
      let (r, w1) := settle env c w in
      let '(a, w2, tr) := run env (k r) w1 in
      (a, w2, Invoked v c :: tr)
  | Confirm v msg k =>
      let (b, w1) := answer env msg w in
      let '(a, w2, tr) := run env (k b) w1 in
      (a, w2, Asked v msg b :: tr)
  end.

(** One call of a function of the script, from state [s] in world [w]. *)
Definition call {W A : Type} (env : Environment W) (f : M A) (s : State) (w : W)
  : Completion A * State * W * list Event :=
  run env (f s) w.

Definition completion {W A : Type} (r : Completion A * State * W * list Event)
  : Completion A := fst (fst (fst r)).
Definition state_after {W A : Type} (r : Completion A * State * W * list Event)
  : State := snd (fst (fst r)).
Definition world_after {W A : Type} (r : Completion A * State * W * list Event)
  : W := snd (fst r).
Definition trace {W A : Type} (r : Completion A * State * W * list Event)
  : list Event := snd r.

(** Classifying the events of a trace. *)
Definition is_delete_request (e : Event) : bool :=
  match e with
  | Invoked _ (delete_password _) => true
  | _ => false
  end.

Definition is_add_request (e : Event) : bool :=
  match e with
  | Invoked _ (add_password _) => true
  | _ => false
  end.

Definition is_request (e : Event) : bool :=
  match e with
  | Invoked _ _ => true
  | Asked _ _ _ => false
  end.

(** The state each event was issued from. *)
Definition visible_at (e : Event) : State :=
  match e with
  | Invoked v _ => v
  | Asked v _ _ => v
  end.

(** ** A scripted environment

    A stateless environment that gives one fixed settlement per command and
    one fixed answer to the dialog; enough to drive a single call down any
    of its paths. *)
Record Script : Type := {
  on_get_passwords : Result (list PasswordEntry);
  on_add_password : Result unit;
  on_delete_password : Result unit;
  on_generate_password : Result string;
  on_confirm : bool
}.

Definition scripted (sc : Script) : Environment unit :=
  {| settle := fun c w =>
       (match c return Result (Reply c) with
        | get_passwords => on_get_passwords sc
        | add_password _ => on_add_password sc
        | delete_password _ => on_delete_password sc
        | generate_password _ => on_generate_password sc
        end, w);
     answer := fun _ w => (on_confirm sc, w) |}.

(** ** Reading the specification of the filter

    What the specification calls a case-insensitive substring match: after
    lower-casing both sides, the query occurs somewhere in the field. *)
Definition occurs_in (t s : string) : Prop :=
  exists pre post, s = (pre ++ t ++ post)%string.




Definition set_searchQuery (v : string) (s : State) : State :=
  {| passwords := passwords s;
     showAddForm := showAddForm s;
     searchQuery := v;
     selectedPassword := selectedPassword s;
     showPassword := showPassword s;
     errorMessage := errorMessage s;
     newPassword := newPassword s;
     passwordLength := passwordLength s |}.

(** ** Sample data *)

Definition bank : PasswordEntry :=
  {| name := "Bank"; username := "alice"; password := "x";
     url := Some "bank.com"; notes := None |}.

Definition email : PasswordEntry :=
  {| name := "Email"; username := "alice"; password := "y";
     url := None; notes := None |}.

Definition shop_draft : PasswordEntry :=
  {| name := "Shop"; username := "alice"; password := "pw";
     url := Some ""; notes := Some "gift cards" |}.

(** Two stored entries, "Bank" selected, the add form open on a draft. *)
Definition sample_view : State :=
  {| passwords := [bank; email];
     showAddForm := true;
     searchQuery := "";
     selectedPassword := Some bank;
     showPassword := false;
     errorMessage := "";
     newPassword := shop_draft;
     passwordLength := 16 |}.

(** Every command succeeds; the store now holds only "Email". *)
Definition store_ok : Script :=
  {| on_get_passwords := Resolved [email];
     on_add_password := Resolved tt;
     on_delete_password := Resolved tt;
     on_generate_password := Resolved "q7Rm2ZpX9sLw4TkB";
     on_confirm := true |}.

(** Every command is rejected. *)
Definition store_down : Script :=
  {| on_get_passwords := Rejected "store offline";
     on_add_password := Rejected "store offline";
     on_delete_password := Rejected "store offline";
     on_generate_password := Rejected "store offline";
     on_confirm := true |}.

(** Mutations succeed, the reload that follows is rejected. *)
Definition reload_fails : Script :=
  {| on_get_passwords := Rejected "timeout";
     on_add_password := Resolved tt;
     on_delete_password := Resolved tt;
     on_generate_password := Resolved "q7Rm2ZpX9sLw4TkB";
     on_confirm := true |}.

(** The user answers no to the dialog. *)
Definition user_declines : Script :=
  {| on_get_passwords := Resolved [email];
     on_add_password := Resolved tt;
     on_delete_password := Resolved tt;
     on_generate_password := Resolved "q7Rm2ZpX9sLw4TkB";
     on_confirm := false |}.

(** ** The rest of the component

    The hook that runs on mount, the handlers the template writes inline,
    and what the template decides to show. *)

(** [onMounted(async () => { await loadPasswords(); })], lines 32-34. *)
Definition onMounted : M unit :=
  loadPasswords ;; ret tt.

Definition set_showPassword (v : bool) (s : State) : State :=
  {| passwords := passwords s;
     showAddForm := showAddForm s;
     searchQuery := searchQuery s;
     selectedPassword := selectedPassword s;
     showPassword := v;
     errorMessage := errorMessage s;
     newPassword := newPassword s;
     passwordLength := passwordLength s |}.

(** [@click="errorMessage = ''"], line 120. *)
Definition dismissError (s : State) : State :=
  set_errorMessage "" s.


(** [@click="selectedPassword = password"], line 145. *)
Definition selectEntry (p : PasswordEntry) (s : State) : State :=
  set_selectedPassword (Some p) s.

(** [@click="showPassword = !showPassword"], line 179. *)
Definition toggleShowPassword (s : State) : State :=
  set_showPassword (negb (showPassword s)) s.


(** The list the template renders: what a call of [getFilteredPasswords()]
    returns (lines 136 and 141). *)
Definition shown (toLowerCase : string -> string) (s : State)
  : list PasswordEntry :=
  match getFilteredPasswords toLowerCase s with
  | Done (Normal l, _) => l
  | _ => []
  end.

(** [:class="{ 'selected': selectedPassword?.name === password.name }"],
    line 144. *)
Definition item_selected (s : State) (p : PasswordEntry) : bool :=
  selected_name_is s (name p).

(** The [empty-state] block, lines 136-138: absent, or one of two texts. *)
Definition empty_state (toLowerCase : string -> string) (s : State)
  : option string :=
  if Nat.eqb (List.length (shown toLowerCase s)) 0
  then Some (if truthy (searchQuery s)
             then "Нет результатов по запросу"
             else "Нет сохраненных паролей")
  else None.

(** The password line of the details pane, lines 158 and 176-177: absent
    without a selection, else the password or eight bullets. *)
Definition password_shown (s : State) : option string :=
  match selectedPassword s with
  | Some p => Some (if showPassword s then password p else "••••••••")
  | None => None
  end.

(** The error banner, lines 118-119: rendered when [errorMessage] is truthy. *)
Definition banner (s : State) : option string :=
  if truthy (errorMessage s) then Some (errorMessage s) else None.

(** An environment whose answers change over time: it counts what it has
    been asked, lists two entries when the list request comes first, and
    rejects every later list request. *)
Definition flaky : Environment nat :=
  {| settle := fun c n =>
       (match c return Result (Reply c) with
        | get_passwords =>
            match n with
            | O => Resolved [bank; email]
            | S _ => Rejected "timeout"
            end
        | add_password _ => Resolved tt
        | delete_password _ => Resolved tt
        | generate_password _ => Resolved "q7Rm2ZpX9sLw4TkB"
        end, S n);
     answer := fun _ n => (true, S n) |}.

(** [n] calls of [loadPasswords], one after the other. *)
Fixpoint load_times {W : Type} (env : Environment W) (n : nat)
    (s : State) (w : W) : State * W :=
  match n with
  | O => (s, w)
  | S k =>
      let r := call env loadPasswords s w in
      load_times env k (state_after r) (world_after r)
  end.

(** The environment's answers to [n] list requests in a row. *)
Fixpoint list_replies {W : Type} (env : Environment W) (n : nat) (w : W)
  : list (Result (list PasswordEntry)) :=
  match n with
  | O => []
  | S k =>
      let (r, w1) := settle env get_passwords w in
      r :: list_replies env k w1
  end.

(** The last list among the answers that was not a rejection, or [start]
    when every answer was one. *)
Definition last_resolved (start : list PasswordEntry)
    (rs : list (Result (list PasswordEntry))) : list PasswordEntry :=
  fold_left
    (fun acc r => match r with Resolved v => v | Rejected _ => acc end)
    rs start.

(** * Verification *)

(** ** What one call of each function does, against any environment *)

Lemma state_after_tuple {W A : Type}
    (c : Completion A) (s : State) (w : W) (tr : list Event) :
  state_after (c, s, w, tr) = s.
Proof.
  reflexivity.
Qed.

Section Calls.

Context {W : Type} (env : Environment W).

Lemma call_loadPasswords (s : State) (w : W) :
  call env loadPasswords s w =
  match settle env get_passwords w with
  | (Resolved v, w1) =>
      (Normal tt, set_passwords v s, w1, [Invoked s get_passwords])
  | (Rejected e, w1) =>
      (Normal tt,
       set_errorMessage ("Ошибка при загрузке паролей: " ++ e) s,
       w1, [Invoked s get_passwords])
  end.
Proof.
  unfold call, loadPasswords, try_catch, bind, invoke, modify. simpl.
  destruct (settle env get_passwords w) as [[v | e] w1]; reflexivity.
Qed.

Lemma call_addPassword (s : State) (w : W) :
  call env addPassword s w =
  let request := add_password (add_password_args (newPassword s)) in
  match settle env request w with
  | (Resolved _, w1) =>
      let r := call env loadPasswords
                 (set_showAddForm false (set_newPassword emptyEntry s)) w1 in
      (completion r, state_after r, world_after r, Invoked s request :: trace r)
  | (Rejected e, w1) =>
      (Normal tt,
       set_errorMessage ("Ошибка при добавлении пароля: " ++ e) s,
       w1, [Invoked s request])
  end.
Proof.
  unfold call at 1, addPassword, try_catch, bind, get, invoke, modify.
  simpl.
  destruct (settle env (add_password _) w) as [[u | e] w1]; simpl;
    [ | reflexivity ].
  rewrite call_loadPasswords. unfold loadPasswords, try_catch, bind, invoke, modify.
  simpl.
  destruct (settle env get_passwords w1) as [[v | e] w2]; reflexivity.
Qed.

Lemma call_deletePassword (n : string) (s : State) (w : W) :
  call env (deletePassword n) s w =
  match answer env (confirm_text n) w with
  | (false, w1) => (Normal tt, s, w1, [Asked s (confirm_text n) false])
  | (true, w1) =>
      match settle env (delete_password n) w1 with
      | (Resolved _, w2) =>
          let r := call env loadPasswords s w2 in
          (Normal tt,
           if selected_name_is (state_after r) n
           then set_selectedPassword None (state_after r)
           else state_after r,
           world_after r,
           Asked s (confirm_text n) true
             :: Invoked s (delete_password n) :: trace r)
      | (Rejected e, w2) =>
          (Normal tt,
           set_errorMessage ("Ошибка при удалении пароля: " ++ e) s,
           w2,
           [Asked s (confirm_text n) true; Invoked s (delete_password n)])
      end
  end.
Proof.
  unfold call at 1, deletePassword, try_catch, bind, get, confirm,
    invoke, modify, ret.
  simpl.
  destruct (answer env (confirm_text n) w) as [[|] w1]; simpl;
    [ | reflexivity ].
  destruct (settle env (delete_password n) w1) as [[u | e] w2]; simpl;
    [ | reflexivity ].
  rewrite call_loadPasswords. unfold loadPasswords, try_catch, bind, invoke, modify.
  simpl.
  destruct (settle env get_passwords w2) as [[v | e] w3]; simpl;
    unfold selected_name_is; simpl;
    destruct (selectedPassword s) as [p |]; simpl;
    try destruct (String.eqb (name p) n); reflexivity.
Qed.

Lemma call_generatePassword (s : State) (w : W) :
  call env generatePassword s w =
  match settle env (generate_password (passwordLength s)) w with
  | (Resolved v, w1) =>
      (Normal tt, set_newPassword (set_password v (newPassword s)) s, w1,
       [Invoked s (generate_password (passwordLength s))])
  | (Rejected e, w1) =>
      (Normal tt,
       set_errorMessage ("Ошибка при генерации пароля: " ++ e) s,
       w1, [Invoked s (generate_password (passwordLength s))])
  end.
Proof.
  unfold call, generatePassword, try_catch, bind, get, invoke, modify. simpl.
  destruct (settle env (generate_password _) w) as [[v | e] w1]; reflexivity.
Qed.

End Calls.

(** ** load *)

(** C2. A rejected list request leaves the collection as it was and puts a
    message ending in the failure detail into the error slot (nothing else
    changes); the collection changes only when a list reply was received, and
    then to exactly that reply; and while the request is in flight the view
    still shows the old collection. *)
Theorem loadPasswords_replaces_only_on_success
    {W : Type} (env : Environment W) (s : State) (w : W) :
  let r := call env loadPasswords s w in
  (forall detail w1,
      settle env get_passwords w = (Rejected detail, w1) ->
      passwords (state_after r) = passwords s
      /\ errorMessage (state_after r)
         = ("Ошибка при загрузке паролей: " ++ detail)%string
      /\ state_after r = set_errorMessage (errorMessage (state_after r)) s)
  /\ (forall v w1,
      settle env get_passwords w = (Resolved v, w1) ->
      passwords (state_after r) = v)
  /\ (passwords (state_after r) <> passwords s ->
      exists v w1, settle env get_passwords w = (Resolved v, w1)
                   /\ passwords (state_after r) = v)
  /\ (forall e, In e (trace r) -> passwords (visible_at e) = passwords s).
Proof.
  cbv zeta. rewrite call_loadPasswords.
  destruct (settle env get_passwords w) as [[v | e] w1];
    unfold state_after, trace; simpl;
    refine (conj _ (conj _ (conj _ _))).
  - intros detail w2 H. discriminate H.
  - intros v' w2 H. now inversion H.
  - intros _. exists v, w1. split; reflexivity.
  - intros ev [<- | []]. reflexivity.
  - intros detail w2 H. inversion H. subst. repeat split.
  - intros v w2 H. discriminate H.
  - intros H. now contradiction H.
  - intros ev [<- | []]. reflexivity.
Qed.

Lemma loadPasswords_replaces_only_on_success_witness :
  passwords (state_after (call (scripted store_down) loadPasswords sample_view tt))
  = [bank; email]
  /\ errorMessage (state_after (call (scripted store_down) loadPasswords sample_view tt))
     = "Ошибка при загрузке паролей: store offline".
Proof.
  destruct (loadPasswords_replaces_only_on_success
              (scripted store_down) sample_view tt) as [Hfail _].
  destruct (Hfail "store offline" tt eq_refl) as (Hp & He & _).
  split; [ exact Hp | exact He ].
Defined.

(** ** addEntry *)

Lemma or_null_empty (x : option string) :
  x = None \/ x = Some "" -> or_null x = None.
Proof.
  intros [-> | ->]; reflexivity.
Qed.

Lemma or_null_nonempty (u : string) :
  u <> "" -> or_null (Some u) = Some u.
Proof.
  destruct u as [| a u]; [ intros H; now contradiction H | reflexivity ].
Qed.

Lemma or_null_never_empty_string (x : option string) :
  or_null x <> Some "".
Proof.
  destruct x as [[| a u] |]; discriminate.
Qed.

(** C3. When the store accepts the entry, the draft is empty afterwards
    (its name, username, password, url and notes are each the empty string)
    and the add form is closed; when the store rejects it, the draft and the
    add form are as they were (so an open form stays open) and the error
    slot holds the message of the failed add. *)
Theorem addPassword_resets_draft_only_on_success
    {W : Type} (env : Environment W) (s : State) (w : W) :
  let request := add_password (add_password_args (newPassword s)) in
  let r := call env addPassword s w in
  (forall w1,
      settle env request w = (Resolved tt, w1) ->
      name (newPassword (state_after r)) = ""
      /\ username (newPassword (state_after r)) = ""
      /\ password (newPassword (state_after r)) = ""
      /\ url (newPassword (state_after r)) = Some ""
      /\ notes (newPassword (state_after r)) = Some ""
      /\ showAddForm (state_after r) = false)
  /\ (forall detail w1,
      settle env request w = (Rejected detail, w1) ->
      newPassword (state_after r) = newPassword s
      /\ showAddForm (state_after r) = showAddForm s
      /\ errorMessage (state_after r)
         = ("Ошибка при добавлении пароля: " ++ detail)%string).
Proof.
  cbv zeta. rewrite call_addPassword. cbv zeta. split.
  - intros w1 H. rewrite H, call_loadPasswords.
    destruct (settle env get_passwords w1) as [[v | e] w2];
      repeat split.
  - intros detail w1 H. rewrite H. repeat split.
Qed.

Lemma addPassword_resets_draft_only_on_success_witness :
  (name (newPassword
           (state_after (call (scripted store_ok) addPassword sample_view tt)))
   = ""
   /\ username (newPassword
                  (state_after (call (scripted store_ok) addPassword sample_view tt)))
      = ""
   /\ password (newPassword
                  (state_after (call (scripted store_ok) addPassword sample_view tt)))
      = ""
   /\ url (newPassword
             (state_after (call (scripted store_ok) addPassword sample_view tt)))
      = Some ""
   /\ notes (newPassword
               (state_after (call (scripted store_ok) addPassword sample_view tt)))
      = Some ""
   /\ showAddForm (state_after (call (scripted store_ok) addPassword sample_view tt))
      = false)
  /\ (newPassword (state_after (call (scripted store_down) addPassword sample_view tt))
      = shop_draft
      /\ showAddForm (state_after (call (scripted store_down) addPassword sample_view tt))
         = true
      /\ errorMessage (state_after (call (scripted store_down) addPassword sample_view tt))
         = "Ошибка при добавлении пароля: store offline").
Proof.
  split.
  - destruct (addPassword_resets_draft_only_on_success
                (scripted store_ok) sample_view tt) as [Hok _].
    exact (Hok tt eq_refl).
  - destruct (addPassword_resets_draft_only_on_success
                (scripted store_down) sample_view tt) as [_ Hfail].
    exact (Hfail "store offline" tt eq_refl).
Defined.

(** C4. The first thing addEntry does is one add request whose name,
    username and password are those of the draft; its url (and likewise its
    notes) is null when the draft's is missing or the empty string, is the
    draft's string when that is non-empty, and is never the empty string.
    No second add request follows. *)
Theorem addPassword_transmits_normalised_fields
    {W : Type} (env : Environment W) (s : State) (w : W) :
  let draft := newPassword s in
  exists a rest,
    trace (call env addPassword s w) = Invoked s (add_password a) :: rest
    /\ existsb is_add_request rest = false
    /\ AddPassword.name a = name draft
    /\ AddPassword.username a = username draft
    /\ AddPassword.password a = password draft
    /\ (url draft = None \/ url draft = Some "" -> AddPassword.url a = None)
    /\ (forall u, url draft = Some u -> u <> "" -> AddPassword.url a = Some u)
    /\ AddPassword.url a <> Some ""
    /\ (notes draft = None \/ notes draft = Some "" -> AddPassword.notes a = None)
    /\ (forall u, notes draft = Some u -> u <> "" -> AddPassword.notes a = Some u)
    /\ AddPassword.notes a <> Some "".
Proof.
  cbv zeta. rewrite call_addPassword. cbv zeta.
  exists (add_password_args (newPassword s)).
  destruct (settle env (add_password _) w) as [[u | e] w1].
  - rewrite call_loadPasswords.
    exists [Invoked (set_showAddForm false (set_newPassword emptyEntry s))
              get_passwords].
    split.
    { destruct (settle env get_passwords w1) as [[v | e] w2]; reflexivity. }
    simpl. repeat split;
      auto using or_null_empty, or_null_never_empty_string.
    + intros u0 -> Hne. now apply or_null_nonempty.
    + intros u0 -> Hne. now apply or_null_nonempty.
  - exists []. simpl. repeat split;
      auto using or_null_empty, or_null_never_empty_string.
    + intros u0 -> Hne. now apply or_null_nonempty.
    + intros u0 -> Hne. now apply or_null_nonempty.
Qed.

Lemma addPassword_transmits_normalised_fields_witness :
  exists a rest,
    trace (call (scripted store_ok) addPassword sample_view tt)
    = Invoked sample_view (add_password a) :: rest
    /\ AddPassword.name a = "Shop"
    /\ AddPassword.url a = None
    /\ AddPassword.notes a = Some "gift cards".
Proof.
  destruct (addPassword_transmits_normalised_fields
              (scripted store_ok) sample_view tt)
    as (a & rest & Ht & _ & Hname & _ & _ & Hurl & _ & _ & _ & Hnotes & _).
  exists a, rest. split; [ exact Ht | ]. split; [ exact Hname | ]. split.
  - apply Hurl. right. reflexivity.
  - apply (Hnotes "gift cards"); [ reflexivity | discriminate ].
Defined.

(** C10. When the store accepts the entry and then rejects the reload, the
    draft is still empty afterwards (its name, username, password, url and
    notes are each the empty string) and the add form closed, the collection
    is the one from before the add, the error slot holds the reload's
    message and not the add's, and addEntry itself completes normally. *)
Theorem addPassword_absorbs_reload_failure
    {W : Type} (env : Environment W) (s : State) (w w1 w2 : W) (detail : string) :
  settle env (add_password (add_password_args (newPassword s))) w
  = (Resolved tt, w1) ->
  settle env get_passwords w1 = (Rejected detail, w2) ->
  let r := call env addPassword s w in
  name (newPassword (state_after r)) = ""
  /\ username (newPassword (state_after r)) = ""
  /\ password (newPassword (state_after r)) = ""
  /\ url (newPassword (state_after r)) = Some ""
  /\ notes (newPassword (state_after r)) = Some ""
  /\ showAddForm (state_after r) = false
  /\ passwords (state_after r) = passwords s
  /\ errorMessage (state_after r)
     = ("Ошибка при загрузке паролей: " ++ detail)%string
  /\ completion r = Normal tt.
Proof.
  intros Hadd Hload. cbv zeta.
  rewrite call_addPassword. cbv zeta.
  rewrite Hadd, call_loadPasswords, Hload.
  repeat split.
Qed.

Lemma addPassword_absorbs_reload_failure_witness :
  let r := call (scripted reload_fails) addPassword sample_view tt in
  name (newPassword (state_after r)) = ""
  /\ username (newPassword (state_after r)) = ""
  /\ password (newPassword (state_after r)) = ""
  /\ url (newPassword (state_after r)) = Some ""
  /\ notes (newPassword (state_after r)) = Some ""
  /\ showAddForm (state_after r) = false
  /\ passwords (state_after r) = [bank; email]
  /\ errorMessage (state_after r) = "Ошибка при загрузке паролей: timeout"
  /\ completion r = Normal tt.
Proof.
  exact (addPassword_absorbs_reload_failure
           (scripted reload_fails) sample_view tt tt tt "timeout"
           eq_refl eq_refl).
Defined.

(** ** The selection *)

Lemma loadPasswords_keeps_selection
    {W : Type} (env : Environment W) (s : State) (w : W) :
  selectedPassword (state_after (call env loadPasswords s w))
  = selectedPassword s.
Proof.
  rewrite call_loadPasswords.
  destruct (settle env get_passwords w) as [[v | e] w1]; reflexivity.
Qed.

Lemma selection_after_clearing (s : State) (n : string) :
  selectedPassword
    (if selected_name_is s n then set_selectedPassword None s else s)
  = if selected_name_is s n then None else selectedPassword s.
Proof.
  destruct (selected_name_is s n); reflexivity.
Qed.

(** ** deleteEntry *)

(** C5. A call of deleteEntry starts with the confirmation dialog; any
    request to the store comes after it and only when the answer was yes, so
    a delete request implies a confirmed dialog.  When the answer is no, the
    state after the call is the state before it (collection, selection and
    error slot included) and nothing was sent to the store. *)
Theorem deletePassword_gated_by_confirmation
    {W : Type} (env : Environment W) (n : string) (s : State) (w : W) :
  let r := call env (deletePassword n) s w in
  (exists reply rest,
      trace r = Asked s (confirm_text n) reply :: rest
      /\ (existsb is_request rest = true -> reply = true))
  /\ (existsb is_delete_request (trace r) = true ->
      exists w1, answer env (confirm_text n) w = (true, w1))
  /\ (forall w1,
      answer env (confirm_text n) w = (false, w1) ->
      state_after r = s
      /\ passwords (state_after r) = passwords s
      /\ selectedPassword (state_after r) = selectedPassword s
      /\ errorMessage (state_after r) = errorMessage s
      /\ existsb is_request (trace r) = false).
Proof.
  cbv zeta. rewrite call_deletePassword.
  destruct (answer env (confirm_text n) w) as [[|] w1].
  - refine (conj _ (conj _ _)).
    + destruct (settle env (delete_password n) w1) as [[u | e] w2];
        eexists; eexists; (split; [ reflexivity | reflexivity ]).
    + intros _. now exists w1.
    + intros w2 H. discriminate H.
  - refine (conj _ (conj _ _)).
    + exists false, []. split; [ reflexivity | discriminate ].
    + discriminate.
    + intros w2 _. repeat split.
Qed.

Lemma deletePassword_gated_by_confirmation_witness :
  let r := call (scripted user_declines) (deletePassword "Bank") sample_view tt in
  state_after r = sample_view
  /\ passwords (state_after r) = [bank; email]
  /\ selectedPassword (state_after r) = Some bank
  /\ errorMessage (state_after r) = ""
  /\ existsb is_request (trace r) = false.
Proof.
  destruct (deletePassword_gated_by_confirmation
              (scripted user_declines) "Bank" sample_view tt) as (_ & _ & Hno).
  exact (Hno tt eq_refl).
Defined.

(** C6. Once the dialog is confirmed: if the store accepts the delete, the
    selection afterwards is empty when the selected entry had the deleted
    name and is otherwise what it was; if the store rejects the delete, the
    selection and the collection are what they were and the error slot holds
    the message of the failed delete.  Every request of the call is sent
    while the view still shows the selection it started with, so the
    clearing comes after the store's answers. *)
Theorem deletePassword_clears_selection_after_success
    {W : Type} (env : Environment W) (n : string) (s : State) (w w1 : W) :
  answer env (confirm_text n) w = (true, w1) ->
  let r := call env (deletePassword n) s w in
  (forall w2,
      settle env (delete_password n) w1 = (Resolved tt, w2) ->
      ((exists p, selectedPassword s = Some p /\ name p = n) ->
       selectedPassword (state_after r) = None)
      /\ (~ (exists p, selectedPassword s = Some p /\ name p = n) ->
          selectedPassword (state_after r) = selectedPassword s))
  /\ (forall detail w2,
      settle env (delete_password n) w1 = (Rejected detail, w2) ->
      selectedPassword (state_after r) = selectedPassword s
      /\ passwords (state_after r) = passwords s
      /\ errorMessage (state_after r)
         = ("Ошибка при удалении пароля: " ++ detail)%string)
  /\ (forall e, In e (trace r) ->
      selectedPassword (visible_at e) = selectedPassword s).
Proof.
  intros Hyes. cbv zeta. rewrite call_deletePassword, Hyes.
  refine (conj _ (conj _ _)).
  - intros w2 H. rewrite H. cbv zeta.
    rewrite state_after_tuple, selection_after_clearing.
    unfold selected_name_is.
    rewrite loadPasswords_keeps_selection. split.
    + intros (p & -> & <-). now rewrite String.eqb_refl.
    + intros Hnot. destruct (selectedPassword s) as [p |] eqn:Hs;
        [ | reflexivity ].
      destruct (String.eqb_spec (name p) n) as [Heq | Hneq]; [ | reflexivity ].
      exfalso. apply Hnot. now exists p.
  - intros detail w2 H. rewrite H. repeat split.
  - destruct (settle env (delete_password n) w1) as [[u | e] w2].
    + rewrite call_loadPasswords.
      destruct (settle env get_passwords w2) as [[v | e] w3];
        intros ev [<- | [<- | [<- | []]]]; reflexivity.
    + intros ev [<- | [<- | []]]; reflexivity.
Qed.

Lemma deletePassword_clears_selection_after_success_witness :
  selectedPassword
    (state_after (call (scripted store_ok) (deletePassword "Bank") sample_view tt))
  = None
  /\ selectedPassword
       (state_after (call (scripted store_ok) (deletePassword "Email") sample_view tt))
     = Some bank
  /\ selectedPassword
       (state_after (call (scripted store_down) (deletePassword "Bank") sample_view tt))
     = Some bank.
Proof.
  split; [ | split ].
  - destruct (deletePassword_clears_selection_after_success
                (scripted store_ok) "Bank" sample_view tt tt eq_refl)
      as [Hok _].
    destruct (Hok tt eq_refl) as [Hclear _].
    apply Hclear. exists bank. split; reflexivity.
  - destruct (deletePassword_clears_selection_after_success
                (scripted store_ok) "Email" sample_view tt tt eq_refl)
      as [Hok _].
    destruct (Hok tt eq_refl) as [_ Hkeep].
    apply Hkeep. intros (p & Hp & Hn). inversion Hp. subst p. discriminate Hn.
  - destruct (deletePassword_clears_selection_after_success
                (scripted store_down) "Bank" sample_view tt tt eq_refl)
      as (_ & Hfail & _).
    destruct (Hfail "store offline" tt eq_refl) as [Hsel _].
    exact Hsel.
Defined.

(** ** generate *)

(** C7. generate sends one request carrying the current length.  When it
    resolves, the draft's password is the returned string and every other
    field of the draft and of the view (the collection with its entries
    among them) is what it was; when it is rejected, the draft (its
    password with it) and every field other than the error slot are what
    they were, and the error slot holds the message of the failed
    generation. *)
Theorem generatePassword_writes_draft_password_only
    {W : Type} (env : Environment W) (s : State) (w : W) :
  let request := generate_password (passwordLength s) in
  let r := call env generatePassword s w in
  let s' := state_after r in
  trace r = [Invoked s request]
  /\ (forall v w1,
      settle env request w = (Resolved v, w1) ->
      password (newPassword s') = v
      /\ name (newPassword s') = name (newPassword s)
      /\ username (newPassword s') = username (newPassword s)
      /\ url (newPassword s') = url (newPassword s)
      /\ notes (newPassword s') = notes (newPassword s)
      /\ passwords s' = passwords s
      /\ showAddForm s' = showAddForm s
      /\ searchQuery s' = searchQuery s
      /\ selectedPassword s' = selectedPassword s
      /\ showPassword s' = showPassword s
      /\ errorMessage s' = errorMessage s
      /\ passwordLength s' = passwordLength s)
  /\ (forall detail w1,
      settle env request w = (Rejected detail, w1) ->
      newPassword s' = newPassword s
      /\ errorMessage s' = ("Ошибка при генерации пароля: " ++ detail)%string
      /\ passwords s' = passwords s
      /\ showAddForm s' = showAddForm s
      /\ searchQuery s' = searchQuery s
      /\ selectedPassword s' = selectedPassword s
      /\ showPassword s' = showPassword s
      /\ passwordLength s' = passwordLength s).
Proof.
  cbv zeta. rewrite call_generatePassword.
  refine (conj _ (conj _ _)).
  - destruct (settle env (generate_password _) w) as [[v | e] w1]; reflexivity.
  - intros v w1 H. rewrite H. repeat split.
  - intros detail w1 H. rewrite H. repeat split.
Qed.

Lemma generatePassword_writes_draft_password_only_witness :
  password (newPassword
              (state_after (call (scripted store_ok) generatePassword sample_view tt)))
  = "q7Rm2ZpX9sLw4TkB"
  /\ passwords (state_after (call (scripted store_ok) generatePassword sample_view tt))
     = [bank; email]
  /\ newPassword
       (state_after (call (scripted store_down) generatePassword sample_view tt))
     = shop_draft.
Proof.
  split; [ | split ].
  - destruct (generatePassword_writes_draft_password_only
                (scripted store_ok) sample_view tt) as (_ & Hok & _).
    destruct (Hok "q7Rm2ZpX9sLw4TkB" tt eq_refl) as [Hpw _]. exact Hpw.
  - destruct (generatePassword_writes_draft_password_only
                (scripted store_ok) sample_view tt) as (_ & Hok & _).
    destruct (Hok "q7Rm2ZpX9sLw4TkB" tt eq_refl)
      as (_ & _ & _ & _ & _ & Hcoll & _). exact Hcoll.
  - destruct (generatePassword_writes_draft_password_only
                (scripted store_down) sample_view tt) as (_ & _ & Hfail).
    destruct (Hfail "store offline" tt eq_refl) as [Hdraft _]. exact Hdraft.
Defined.

(** ** Selection against the collection *)

(** C1, as claimed, fails for load: the view shows "Bank" and "Email" with
    "Bank" selected; the store answers the list request with "Email" alone;
    afterwards no entry of the collection is named "Bank", and "Bank" is
    still the selection. *)
Lemma loadPasswords_keeps_selection_of_removed_entry :
  let r := call (scripted store_ok) loadPasswords sample_view tt in
  selectedPassword sample_view = Some bank
  /\ In bank (passwords sample_view)
  /\ passwords (state_after r) = [email]
  /\ ~ In (name bank) (map name (passwords (state_after r)))
  /\ selectedPassword (state_after r) = Some bank.
Proof.
  cbv zeta. repeat split.
  - left. reflexivity.
  - simpl. intros [H | []]. discriminate H.
Qed.

(** C1, amended. load, addEntry and generate leave the selection as it was,
    whatever the store answers, also when the collection received no longer
    holds the selected name.  The selection becomes empty through
    deleteEntry: when the dialog is confirmed, the store accepts the delete
    and the selected entry has the deleted name, it is empty afterwards,
    whatever the reload that follows returns. *)
Theorem selection_cleared_by_delete_only
    {W : Type} (env : Environment W) (s : State) (w : W) :
  selectedPassword (state_after (call env loadPasswords s w)) = selectedPassword s
  /\ selectedPassword (state_after (call env addPassword s w)) = selectedPassword s
  /\ selectedPassword (state_after (call env generatePassword s w))
     = selectedPassword s
  /\ (forall n p w1 w2,
      selectedPassword s = Some p ->
      name p = n ->
      answer env (confirm_text n) w = (true, w1) ->
      settle env (delete_password n) w1 = (Resolved tt, w2) ->
      selectedPassword (state_after (call env (deletePassword n) s w)) = None).
Proof.
  refine (conj _ (conj _ (conj _ _))).
  - apply loadPasswords_keeps_selection.
  - rewrite call_addPassword. cbv zeta.
    destruct (settle env (add_password _) w) as [[u | e] w1];
      [ | reflexivity ].
    rewrite state_after_tuple, loadPasswords_keeps_selection. reflexivity.
  - rewrite call_generatePassword.
    destruct (settle env (generate_password _) w) as [[v | e] w1]; reflexivity.
  - intros n p w1 w2 Hsel Hname Hyes Hdel.
    rewrite call_deletePassword, Hyes, Hdel. cbv zeta.
    rewrite state_after_tuple, selection_after_clearing.
    unfold selected_name_is.
    rewrite loadPasswords_keeps_selection, Hsel, Hname, String.eqb_refl.
    reflexivity.
Qed.

Lemma selection_cleared_by_delete_only_witness :
  selectedPassword
    (state_after (call (scripted reload_fails) loadPasswords sample_view tt))
  = Some bank
  /\ selectedPassword
       (state_after
          (call (scripted reload_fails) (deletePassword "Bank") sample_view tt))
     = None.
Proof.
  destruct (selection_cleared_by_delete_only
              (scripted reload_fails) sample_view tt) as (Hload & _ & _ & Hdel).
  split.
  - exact Hload.
  - exact (Hdel "Bank" bank tt tt eq_refl eq_refl eq_refl eq_refl).
Defined.

(** ** filter *)

Lemma startsWith_spec (s t : string) :
  startsWith s t = true <-> exists post, s = (t ++ post)%string.
Proof.
  revert s. induction t as [| b t IH]; intros s; simpl.
  - split; [ intros _; now exists s | reflexivity ].
  - destruct s as [| a s].
    + split; [ discriminate | intros [post H]; discriminate H ].
    + rewrite andb_true_iff, Ascii.eqb_eq, IH. split.
      * intros [-> [post ->]]. now exists post.
      * intros [post H]. inversion H. split; [ reflexivity | now exists post ].
Qed.

Lemma includes_spec (s t : string) :
  includes s t = true <-> occurs_in t s.
Proof.
  unfold occurs_in. induction s as [| a s IH]; simpl.
  - rewrite orb_false_r, startsWith_spec. split.
    + intros [post H]. now exists EmptyString, post.
    + intros (pre & post & H). destruct pre as [| c pre]; simpl in H.
      * now exists post.
      * discriminate H.
  - rewrite orb_true_iff, startsWith_spec, IH. split.
    + intros [[post H] | (pre & post & H)].
      * now exists EmptyString, post.
      * exists (String a pre), post. simpl. now rewrite H.
    + intros (pre & post & H). destruct pre as [| c pre]; simpl in H.
      * left. now exists post.
      * right. inversion H. now exists pre, post.
Qed.

Lemma includes_empty (s : string) : includes s EmptyString = true.
Proof.
  destruct s; reflexivity.
Qed.


Lemma filter_all {A : Type} (f : A -> bool) (l : list A) :
  (forall x, f x = true) -> filter f l = l.
Proof.
  intros Hall. induction l as [| x l IH]; simpl.
  - reflexivity.
  - now rewrite Hall, IH.
Qed.

Lemma filter_twice {A : Type} (f : A -> bool) (l : list A) :
  filter f (filter f l) = filter f l.
Proof.
  induction l as [| x l IH]; simpl.
  - reflexivity.
  - destruct (f x) eqn:Hx; simpl; [ rewrite Hx, IH | ]; auto.
Qed.

Section FilterFacts.

Variable toLowerCase : string -> string.



Lemma call_getFilteredPasswords
    {W : Type} (env : Environment W) (s : State) (w : W) :
  call env (getFilteredPasswords toLowerCase) s w =
  (Normal (if truthy (searchQuery s)
           then filter (matches toLowerCase (toLowerCase (searchQuery s)))
                  (passwords s)
           else passwords s),
   s, w, []).
Proof.
  unfold call, getFilteredPasswords, bind, get, ret. simpl.
  destruct (truthy (searchQuery s)); reflexivity.
Qed.

End FilterFacts.



(** C9. Filtering with the same query the list that filter returned gives
    that list again. *)
Theorem getFilteredPasswords_idempotent
    (toLowerCase : string -> string) {W : Type} (env : Environment W)
    (s : State) (w : W) :
  exists hits,
    completion (call env (getFilteredPasswords toLowerCase) s w) = Normal hits
    /\ completion
         (call env (getFilteredPasswords toLowerCase) (set_passwords hits s) w)
       = Normal hits.
Proof.
  rewrite call_getFilteredPasswords.
  eexists. split; [ reflexivity | ].
  rewrite call_getFilteredPasswords. unfold completion. simpl.
  destruct (truthy (searchQuery s)); [ | reflexivity ].
  now rewrite filter_twice.
Qed.

(** The scenarios of the specification, evaluated. *)
Example filter_alice_keeps_both_in_order :
  completion (call (scripted store_ok) (getFilteredPasswords toLowerCase_latin)
                (set_searchQuery "alice" sample_view) tt)
  = Normal [bank; email].
Proof. reflexivity. Qed.

Example filter_bank_keeps_bank :
  completion (call (scripted store_ok) (getFilteredPasswords toLowerCase_latin)
                (set_searchQuery "bank" sample_view) tt)
  = Normal [bank].
Proof. reflexivity. Qed.

Example filter_ignores_case :
  completion (call (scripted store_ok) (getFilteredPasswords toLowerCase_latin)
                (set_searchQuery "BANK.COM" sample_view) tt)
  = completion (call (scripted store_ok) (getFilteredPasswords toLowerCase_latin)
                  (set_searchQuery "bank.com" sample_view) tt).
Proof. reflexivity. Qed.

(** * Further properties of the component *)

(** ** Completion, requests and the collection *)

Lemma call_onMounted {W : Type} (env : Environment W) (s : State) (w : W) :
  call env onMounted s w = call env loadPasswords s w.
Proof.
  rewrite call_loadPasswords.
  unfold call, onMounted, loadPasswords, try_catch, bind, invoke, modify, ret.
  simpl.
  destruct (settle env get_passwords w) as [[v | e] w1]; reflexivity.
Qed.

Lemma completion_loadPasswords {W : Type} (env : Environment W)
    (s : State) (w : W) :
  completion (call env loadPasswords s w) = Normal tt.
Proof.
  rewrite call_loadPasswords.
  destruct (settle env get_passwords w) as [[v | e] w1]; reflexivity.
Qed.

(** X1. No call of the mount hook, load, addEntry, deleteEntry or generate
    ends by throwing: whatever the store and the user answer, each completes
    normally, its failures having been caught inside. *)
Theorem calls_complete_normally
    {W : Type} (env : Environment W) (n : string) (s : State) (w : W) :
  completion (call env onMounted s w) = Normal tt
  /\ completion (call env loadPasswords s w) = Normal tt
  /\ completion (call env addPassword s w) = Normal tt
  /\ completion (call env (deletePassword n) s w) = Normal tt
  /\ completion (call env generatePassword s w) = Normal tt.
Proof.
  refine (conj _ (conj _ (conj _ (conj _ _)))).
  - rewrite call_onMounted. apply completion_loadPasswords.
  - apply completion_loadPasswords.
  - rewrite call_addPassword. cbv zeta.
    destruct (settle env (add_password _) w) as [[u | e] w1];
      [ | reflexivity ].
    apply completion_loadPasswords.
  - rewrite call_deletePassword.
    destruct (answer env (confirm_text n) w) as [[|] w1]; [ | reflexivity ].
    destruct (settle env (delete_password n) w1) as [[u | e] w2]; reflexivity.
  - rewrite call_generatePassword.
    destruct (settle env (generate_password _) w) as [[v | e] w1]; reflexivity.
Qed.

Lemma trace_loadPasswords {W : Type} (env : Environment W)
    (s : State) (w : W) :
  trace (call env loadPasswords s w) = [Invoked s get_passwords].
Proof.
  rewrite call_loadPasswords.
  destruct (settle env get_passwords w) as [[v | e] w1]; reflexivity.
Qed.

(** X2. A rejected add is the only request of its call: no reload follows.
    An accepted add is followed by exactly one list request, and that one is
    sent while the view already shows the add form closed and the draft
    empty. *)
Theorem addPassword_reloads_only_after_success
    {W : Type} (env : Environment W) (s : State) (w : W) :
  let request := add_password (add_password_args (newPassword s)) in
  let r := call env addPassword s w in
  (forall detail w1,
      settle env request w = (Rejected detail, w1) ->
      trace r = [Invoked s request] /\ world_after r = w1)
  /\ (forall w1,
      settle env request w = (Resolved tt, w1) ->
      trace r =
      [Invoked s request;
       Invoked (set_showAddForm false (set_newPassword emptyEntry s))
         get_passwords]).
Proof.
  cbv zeta. rewrite call_addPassword. cbv zeta. split.
  - intros detail w1 H. rewrite H. split; reflexivity.
  - intros w1 H. rewrite H. unfold trace at 1. simpl snd.
    now rewrite trace_loadPasswords.
Qed.

Lemma addPassword_reloads_only_after_success_witness :
  trace (call (scripted store_down) addPassword sample_view tt)
  = [Invoked sample_view (add_password (add_password_args shop_draft))]
  /\ trace (call (scripted store_ok) addPassword sample_view tt)
     = [Invoked sample_view (add_password (add_password_args shop_draft));
        Invoked (set_showAddForm false (set_newPassword emptyEntry sample_view))
          get_passwords].
Proof.
  split.
  - destruct (addPassword_reloads_only_after_success
                (scripted store_down) sample_view tt) as [Hfail _].
    destruct (Hfail "store offline" tt eq_refl) as [Ht _]. exact Ht.
  - destruct (addPassword_reloads_only_after_success
                (scripted store_ok) sample_view tt) as [_ Hok].
    exact (Hok tt eq_refl).
Defined.

(** X3. After a confirmed dialog, a rejected delete is the only request of
    the call: no reload follows.  An accepted delete is followed by exactly
    one list request, sent from the unchanged view. *)
Theorem deletePassword_reloads_only_after_success
    {W : Type} (env : Environment W) (n : string) (s : State) (w w1 : W) :
  answer env (confirm_text n) w = (true, w1) ->
  let r := call env (deletePassword n) s w in
  (forall detail w2,
      settle env (delete_password n) w1 = (Rejected detail, w2) ->
      trace r = [Asked s (confirm_text n) true; Invoked s (delete_password n)]
      /\ world_after r = w2)
  /\ (forall w2,
      settle env (delete_password n) w1 = (Resolved tt, w2) ->
      trace r = [Asked s (confirm_text n) true;
                 Invoked s (delete_password n);
                 Invoked s get_passwords]).
Proof.
  intros Hyes. cbv zeta. rewrite call_deletePassword, Hyes. split.
  - intros detail w2 H. rewrite H. split; reflexivity.
  - intros w2 H. rewrite H. cbv zeta. unfold trace at 1. simpl snd.
    now rewrite trace_loadPasswords.
Qed.

Lemma deletePassword_reloads_only_after_success_witness :
  trace (call (scripted store_down) (deletePassword "Bank") sample_view tt)
  = [Asked sample_view (confirm_text "Bank") true;
     Invoked sample_view (delete_password "Bank")]
  /\ trace (call (scripted store_ok) (deletePassword "Bank") sample_view tt)
     = [Asked sample_view (confirm_text "Bank") true;
        Invoked sample_view (delete_password "Bank");
        Invoked sample_view get_passwords].
Proof.
  split.
  - destruct (deletePassword_reloads_only_after_success
                (scripted store_down) "Bank" sample_view tt tt eq_refl)
      as [Hfail _].
    destruct (Hfail "store offline" tt eq_refl) as [Ht _]. exact Ht.
  - destruct (deletePassword_reloads_only_after_success
                (scripted store_ok) "Bank" sample_view tt tt eq_refl)
      as [_ Hok].
    exact (Hok tt eq_refl).
Defined.

(** X4. When the store accepts a confirmed delete and then rejects the
    reload, the collection is the one from before the delete (an entry of
    that name is still listed if it was), the selection has been cleared if
    the selected entry had the deleted name and is otherwise as it was, and
    the error slot holds the reload's message. *)
Theorem deletePassword_absorbs_reload_failure
    {W : Type} (env : Environment W) (n : string) (s : State)
    (w w1 w2 w3 : W) (detail : string) :
  answer env (confirm_text n) w = (true, w1) ->
  settle env (delete_password n) w1 = (Resolved tt, w2) ->
  settle env get_passwords w2 = (Rejected detail, w3) ->
  let r := call env (deletePassword n) s w in
  passwords (state_after r) = passwords s
  /\ selectedPassword (state_after r)
     = (if selected_name_is s n then None else selectedPassword s)
  /\ errorMessage (state_after r)
     = ("Ошибка при загрузке паролей: " ++ detail)%string.
Proof.
  intros Hyes Hdel Hload. cbv zeta.
  rewrite call_deletePassword, Hyes, Hdel. cbv zeta.
  rewrite call_loadPasswords, Hload.
  rewrite !state_after_tuple.
  refine (conj _ (conj _ _)).
  - destruct (selected_name_is _ n); reflexivity.
  - rewrite selection_after_clearing. reflexivity.
  - destruct (selected_name_is _ n); reflexivity.
Qed.

Lemma deletePassword_absorbs_reload_failure_witness :
  let r := call (scripted reload_fails) (deletePassword "Bank") sample_view tt in
  passwords (state_after r) = [bank; email]
  /\ selectedPassword (state_after r) = None
  /\ errorMessage (state_after r) = "Ошибка при загрузке паролей: timeout".
Proof.
  exact (deletePassword_absorbs_reload_failure
           (scripted reload_fails) "Bank" sample_view tt tt tt tt "timeout"
           eq_refl eq_refl eq_refl).
Defined.

(** X5. The collection is never patched locally: after load, addEntry or
    deleteEntry it is either the collection from before the call or,
    entirely, a list the store resolved a list request with; generate
    leaves it as it was. *)
Theorem collection_comes_from_the_store
    {W : Type} (env : Environment W) (n : string) (s : State) (w : W) :
  let kept_or_fetched (s' : State) :=
    passwords s' = passwords s
    \/ exists w1 w2, settle env get_passwords w1 = (Resolved (passwords s'), w2) in
  kept_or_fetched (state_after (call env loadPasswords s w))
  /\ kept_or_fetched (state_after (call env addPassword s w))
  /\ kept_or_fetched (state_after (call env (deletePassword n) s w))
  /\ passwords (state_after (call env generatePassword s w)) = passwords s.
Proof.
  cbv zeta.
  assert (Hload : forall s0 w0,
             passwords s0 = passwords s ->
             passwords (state_after (call env loadPasswords s0 w0)) = passwords s
             \/ exists w1 w2,
                 settle env get_passwords w1
                 = (Resolved (passwords (state_after (call env loadPasswords s0 w0))),
                    w2)).
  { intros s0 w0 Hs0. rewrite call_loadPasswords.
    destruct (settle env get_passwords w0) as [[v | e] w1] eqn:Hget.
    - right. exists w0, w1. exact Hget.
    - left. exact Hs0. }
  refine (conj _ (conj _ (conj _ _))).
  - now apply Hload.
  - rewrite call_addPassword. cbv zeta.
    destruct (settle env (add_password _) w) as [[u | e] w1].
    + rewrite state_after_tuple. now apply Hload.
    + left. reflexivity.
  - rewrite call_deletePassword.
    destruct (answer env (confirm_text n) w) as [[|] w1];
      [ | left; reflexivity ].
    destruct (settle env (delete_password n) w1) as [[u | e] w2];
      [ | left; reflexivity ].
    cbv zeta. rewrite state_after_tuple.
    destruct (Hload s w2 eq_refl) as [Hkept | (wa & wb & Hfetched)].
    + left. destruct (selected_name_is _ n); exact Hkept.
    + right. exists wa, wb.
      destruct (selected_name_is _ n); exact Hfetched.
  - rewrite call_generatePassword.
    destruct (settle env (generate_password _) w) as [[v | e] w1]; reflexivity.
Qed.

(** ** The error slot *)

(** X6. Every rejected request ends with the banner on screen, showing the
    message of the step that failed followed by the failure detail, also
    when the detail is the empty string.  This holds for the request of
    load, addEntry, deleteEntry and generate, and for the reload that follows
    an accepted add or delete. *)
Theorem rejection_always_shows_in_banner
    {W : Type} (env : Environment W) (n : string) (s : State) (w : W) :
  (forall d w1,
      settle env get_passwords w = (Rejected d, w1) ->
      banner (state_after (call env loadPasswords s w))
      = Some ("Ошибка при загрузке паролей: " ++ d)%string)
  /\ (forall d w1,
      settle env (add_password (add_password_args (newPassword s))) w
      = (Rejected d, w1) ->
      banner (state_after (call env addPassword s w))
      = Some ("Ошибка при добавлении пароля: " ++ d)%string)
  /\ (forall d w1 w2,
      settle env (add_password (add_password_args (newPassword s))) w
      = (Resolved tt, w1) ->
      settle env get_passwords w1 = (Rejected d, w2) ->
      banner (state_after (call env addPassword s w))
      = Some ("Ошибка при загрузке паролей: " ++ d)%string)
  /\ (forall d w1 w2,
      answer env (confirm_text n) w = (true, w1) ->
      settle env (delete_password n) w1 = (Rejected d, w2) ->
      banner (state_after (call env (deletePassword n) s w))
      = Some ("Ошибка при удалении пароля: " ++ d)%string)
  /\ (forall d w1 w2 w3,
      answer env (confirm_text n) w = (true, w1) ->
      settle env (delete_password n) w1 = (Resolved tt, w2) ->
      settle env get_passwords w2 = (Rejected d, w3) ->
      banner (state_after (call env (deletePassword n) s w))
      = Some ("Ошибка при загрузке паролей: " ++ d)%string)
  /\ (forall d w1,
      settle env (generate_password (passwordLength s)) w = (Rejected d, w1) ->
      banner (state_after (call env generatePassword s w))
      = Some ("Ошибка при генерации пароля: " ++ d)%string).
Proof.
  refine (conj _ (conj _ (conj _ (conj _ (conj _ _))))).
  - intros d w1 H. rewrite call_loadPasswords, H. reflexivity.
  - intros d w1 H. rewrite call_addPassword. cbv zeta. rewrite H. reflexivity.
  - intros d w1 w2 Hadd Hget. rewrite call_addPassword. cbv zeta.
    rewrite Hadd, call_loadPasswords, Hget. reflexivity.
  - intros d w1 w2 Hyes Hdel. rewrite call_deletePassword, Hyes, Hdel.
    reflexivity.
  - intros d w1 w2 w3 Hyes Hdel Hget.
    rewrite call_deletePassword, Hyes, Hdel. cbv zeta.
    rewrite call_loadPasswords, Hget. rewrite !state_after_tuple.
    destruct (selected_name_is _ n); reflexivity.
  - intros d w1 H. rewrite call_generatePassword, H. reflexivity.
Qed.

Lemma rejection_always_shows_in_banner_witness :
  banner (state_after (call (scripted store_down) loadPasswords sample_view tt))
  = Some "Ошибка при загрузке паролей: store offline"
  /\ banner (state_after
               (call (scripted reload_fails) (deletePassword "Bank") sample_view tt))
     = Some "Ошибка при загрузке паролей: timeout"
  /\ banner (state_after (call (scripted store_down) generatePassword sample_view tt))
     = Some "Ошибка при генерации пароля: store offline".
Proof.
  split; [ | split ].
  - destruct (rejection_always_shows_in_banner
                (scripted store_down) "Bank" sample_view tt) as [Hload _].
    exact (Hload "store offline" tt eq_refl).
  - destruct (rejection_always_shows_in_banner
                (scripted reload_fails) "Bank" sample_view tt)
      as (_ & _ & _ & _ & Hreload & _).
    exact (Hreload "timeout" tt tt tt eq_refl eq_refl eq_refl).
  - destruct (rejection_always_shows_in_banner
                (scripted store_down) "Bank" sample_view tt)
      as (_ & _ & _ & _ & _ & Hgen).
    exact (Hgen "store offline" tt eq_refl).
Defined.

(** X7. Success never clears the error slot: a call of load, addEntry,
    deleteEntry or generate whose requests are all accepted, and a
    deleteEntry that is declined, leave the error message as it was, so an
    earlier error stays in the banner; dismissing it removes the banner. *)
Theorem success_keeps_earlier_error
    {W : Type} (env : Environment W) (n : string) (s : State) (w : W) :
  (forall v w1,
      settle env get_passwords w = (Resolved v, w1) ->
      errorMessage (state_after (call env loadPasswords s w)) = errorMessage s)
  /\ (forall v w1 w2,
      settle env (add_password (add_password_args (newPassword s))) w
      = (Resolved tt, w1) ->
      settle env get_passwords w1 = (Resolved v, w2) ->
      errorMessage (state_after (call env addPassword s w)) = errorMessage s)
  /\ (forall w1,
      answer env (confirm_text n) w = (false, w1) ->
      errorMessage (state_after (call env (deletePassword n) s w))
      = errorMessage s)
  /\ (forall v w1 w2 w3,
      answer env (confirm_text n) w = (true, w1) ->
      settle env (delete_password n) w1 = (Resolved tt, w2) ->
      settle env get_passwords w2 = (Resolved v, w3) ->
      errorMessage (state_after (call env (deletePassword n) s w))
      = errorMessage s)
  /\ (forall v w1,
      settle env (generate_password (passwordLength s)) w = (Resolved v, w1) ->
      errorMessage (state_after (call env generatePassword s w)) = errorMessage s)
  /\ banner (dismissError s) = None.
Proof.
  refine (conj _ (conj _ (conj _ (conj _ (conj _ _))))).
  - intros v w1 H. rewrite call_loadPasswords, H. reflexivity.
  - intros v w1 w2 Hadd Hget. rewrite call_addPassword. cbv zeta.
    rewrite Hadd, call_loadPasswords, Hget. reflexivity.
  - intros w1 Hno. rewrite call_deletePassword, Hno. reflexivity.
  - intros v w1 w2 w3 Hyes Hdel Hget.
    rewrite call_deletePassword, Hyes, Hdel. cbv zeta.
    rewrite call_loadPasswords, Hget. rewrite !state_after_tuple.
    destruct (selected_name_is _ n); reflexivity.
  - intros v w1 H. rewrite call_generatePassword, H. reflexivity.
  - reflexivity.
Qed.

Lemma success_keeps_earlier_error_witness :
  let failed := state_after (call (scripted store_down) generatePassword sample_view tt) in
  errorMessage (state_after (call (scripted store_ok) loadPasswords failed tt))
  = "Ошибка при генерации пароля: store offline"
  /\ errorMessage (state_after (call (scripted store_ok) addPassword failed tt))
     = "Ошибка при генерации пароля: store offline".
Proof.
  cbv zeta.
  destruct (success_keeps_earlier_error
              (scripted store_ok) "Bank"
              (state_after (call (scripted store_down) generatePassword sample_view tt))
              tt) as (Hload & Hadd & _).
  split.
  - exact (Hload [email] tt eq_refl).
  - exact (Hadd [email] tt tt eq_refl eq_refl).
Defined.

(** ** Calls in sequence *)

(** X8. What generate puts into the draft is what the next addEntry sends:
    after an accepted generate, the add request carries the generated string
    as password, next to the name and username typed into the draft. *)
Theorem generated_password_is_submitted
    {W : Type} (env : Environment W) (s : State) (w w1 : W) (v : string) :
  settle env (generate_password (passwordLength s)) w = (Resolved v, w1) ->
  let r1 := call env generatePassword s w in
  let r2 := call env addPassword (state_after r1) (world_after r1) in
  exists a rest,
    trace r2 = Invoked (state_after r1) (add_password a) :: rest
    /\ AddPassword.password a = v
    /\ AddPassword.name a = name (newPassword s)
    /\ AddPassword.username a = username (newPassword s)
    /\ AddPassword.url a = or_null (url (newPassword s))
    /\ AddPassword.notes a = or_null (notes (newPassword s)).
Proof.
  intros Hgen. cbv zeta. rewrite call_generatePassword, Hgen.
  rewrite call_addPassword. cbv zeta.
  unfold state_after at 1 2, world_after at 1. simpl fst. simpl snd.
  eexists. 
  destruct (settle env (add_password _) w1) as [[u | e] w2];
    eexists; (split; [ reflexivity | repeat split ]).
Qed.

Lemma generated_password_is_submitted_witness :
  let r1 := call flaky generatePassword sample_view 0%nat in
  let r2 := call flaky addPassword (state_after r1) (world_after r1) in
  exists a rest,
    trace r2 = Invoked (state_after r1) (add_password a) :: rest
    /\ AddPassword.password a = "q7Rm2ZpX9sLw4TkB"
    /\ AddPassword.name a = "Shop"
    /\ AddPassword.username a = "alice"
    /\ AddPassword.url a = None
    /\ AddPassword.notes a = Some "gift cards".
Proof.
  exact (generated_password_is_submitted
           flaky sample_view 0%nat 1%nat "q7Rm2ZpX9sLw4TkB" eq_refl).
Defined.

(** X9. Of any number of loads in a row, the last accepted one decides: the
    collection afterwards is the reply to the last list request that was
    not rejected, and the collection from before when all were rejected. *)
Theorem last_accepted_load_decides
    {W : Type} (env : Environment W) (n : nat) (s : State) (w : W) :
  passwords (fst (load_times env n s w))
  = last_resolved (passwords s) (list_replies env n w).
Proof.
  revert s w. induction n as [| n IH]; intros s w; simpl.
  - reflexivity.
  - rewrite IH, call_loadPasswords.
    destruct (settle env get_passwords w) as [[v | e] w1]; reflexivity.
Qed.

Example three_loads_keep_the_first_reply :
  passwords (fst (load_times flaky 3 initialState 0%nat)) = [bank; email]
  /\ errorMessage (fst (load_times flaky 3 initialState 0%nat))
     = "Ошибка при загрузке паролей: timeout".
Proof. split; reflexivity. Qed.

(** ** More on the filter *)

Lemma string_app_assoc (a b c : string) :
  ((a ++ b) ++ c = a ++ (b ++ c))%string.
Proof.
  induction a as [| x a IH]; simpl; [ reflexivity | now rewrite IH ].
Qed.

Lemma occurs_in_trans (a b c : string) :
  occurs_in a b -> occurs_in b c -> occurs_in a c.
Proof.
  intros (p1 & q1 & ->) (p2 & q2 & ->).
  exists (p2 ++ p1)%string, (q1 ++ q2)%string.
  now rewrite !string_app_assoc.
Qed.

Lemma includes_narrower (s t u : string) :
  occurs_in u t -> includes s t = true -> includes s u = true.
Proof.
  intros Hut Hst. apply includes_spec. apply includes_spec in Hst.
  exact (occurs_in_trans u t s Hut Hst).
Qed.

Lemma filter_narrower {A : Type} (f g : A -> bool) (l : list A) :
  (forall x, g x = true -> f x = true) ->
  filter g (filter f l) = filter g l.
Proof.
  intros Hgf. induction l as [| x l IH]; simpl.
  - reflexivity.
  - destruct (f x) eqn:Hf; simpl.
    + now rewrite IH.
    + destruct (g x) eqn:Hg; [ | exact IH ].
      rewrite (Hgf x Hg) in Hf. discriminate Hf.
Qed.

Section MoreFilterFacts.

Variable toLowerCase : string -> string.

Lemma shown_eq (s : State) :
  shown toLowerCase s =
  if truthy (searchQuery s)
  then filter (matches toLowerCase (toLowerCase (searchQuery s))) (passwords s)
  else passwords s.
Proof.
  unfold shown, getFilteredPasswords, bind, get, ret. simpl.
  destruct (truthy (searchQuery s)); reflexivity.
Qed.

Lemma matches_narrower (q1 q2 : string) (p : PasswordEntry) :
  occurs_in q1 q2 ->
  matches toLowerCase q2 p = true -> matches toLowerCase q1 p = true.
Proof.
  intros Hq. unfold matches. rewrite !orb_true_iff.
  intros [[H | H] | H].
  - left. left. exact (includes_narrower _ _ _ Hq H).
  - left. right. exact (includes_narrower _ _ _ Hq H).
  - right. destruct (url p) as [u |]; [ | discriminate H ].
    apply andb_true_iff in H. destruct H as [Hu H].
    rewrite Hu. exact (includes_narrower _ _ _ Hq H).
Qed.

Lemma matches_empty_query (p : PasswordEntry) :
  matches toLowerCase EmptyString p = true.
Proof.
  unfold matches. now rewrite includes_empty.
Qed.

End MoreFilterFacts.

(** X10. Refining a query narrows the list: when the lower-cased first
    query occurs in the lower-cased second one, and the second is not empty,
    searching the hits of the first for the second gives exactly the hits of
    the second on the whole collection, and every hit of the second is a hit
    of the first. *)
Theorem refined_query_narrows_the_hits
    (toLowerCase : string -> string) (q1 q2 : string) (s : State) :
  truthy q2 = true ->
  occurs_in (toLowerCase q1) (toLowerCase q2) ->
  let hits1 := shown toLowerCase (set_searchQuery q1 s) in
  let hits2 := shown toLowerCase (set_searchQuery q2 s) in
  shown toLowerCase (set_searchQuery q2 (set_passwords hits1 s)) = hits2
  /\ (forall p, In p hits2 -> In p hits1).
Proof.
  intros Hq2 Hocc. cbv zeta. rewrite !shown_eq. simpl. rewrite Hq2.
  assert (Hcomp :
            filter (matches toLowerCase (toLowerCase q2))
              (if truthy q1
               then filter (matches toLowerCase (toLowerCase q1)) (passwords s)
               else passwords s)
            = filter (matches toLowerCase (toLowerCase q2)) (passwords s)).
  { destruct (truthy q1); [ | reflexivity ].
    apply filter_narrower. intros p. now apply matches_narrower. }
  split; [ exact Hcomp | ].
  intros p Hp. rewrite <- Hcomp in Hp. apply filter_In in Hp. tauto.
Qed.

Lemma refined_query_narrows_the_hits_witness :
  shown toLowerCase_latin
    (set_searchQuery "Bank"
       (set_passwords (shown toLowerCase_latin (set_searchQuery "AN" sample_view))
          sample_view))
  = shown toLowerCase_latin (set_searchQuery "Bank" sample_view)
  /\ (forall p,
         In p (shown toLowerCase_latin (set_searchQuery "Bank" sample_view)) ->
         In p (shown toLowerCase_latin (set_searchQuery "AN" sample_view))).
Proof.
  apply (refined_query_narrows_the_hits toLowerCase_latin "AN" "Bank" sample_view).
  - reflexivity.
  - exists "b", "k". reflexivity.
Defined.

(** X11. Two queries that lower-case to the same string show the same list,
    for every collection (given that lower-casing the empty string gives the
    empty string): the filter cannot tell "GMAIL" from "gmail". *)
Theorem queries_equal_up_to_case_show_the_same
    (toLowerCase : string -> string) (q1 q2 : string) (s : State) :
  toLowerCase "" = "" ->
  toLowerCase q1 = toLowerCase q2 ->
  shown toLowerCase (set_searchQuery q1 s)
  = shown toLowerCase (set_searchQuery q2 s).
Proof.
  intros Hempty Hq. rewrite !shown_eq. simpl.
  destruct q1 as [| a1 q1], q2 as [| a2 q2]; simpl.
  - reflexivity.
  - rewrite <- Hq, Hempty. symmetry. apply filter_all.
    apply matches_empty_query.
  - rewrite Hq, Hempty. apply filter_all. apply matches_empty_query.
  - now rewrite Hq.
Qed.

Lemma queries_equal_up_to_case_show_the_same_witness :
  shown toLowerCase_latin (set_searchQuery "GMAIL" sample_view)
  = shown toLowerCase_latin (set_searchQuery "gmail" sample_view).
Proof.
  exact (queries_equal_up_to_case_show_the_same
           toLowerCase_latin "GMAIL" "gmail" sample_view eq_refl eq_refl).
Defined.

(** ** What the template shows *)

Lemma NoDup_names_filter (f : PasswordEntry -> bool) (l : list PasswordEntry) :
  NoDup (map name l) -> NoDup (map name (filter f l)).
Proof.
  induction l as [| x l IH]; simpl; intros Hnd.
  - constructor.
  - inversion Hnd as [| ? ? Hnotin Hrest]; subst.
    destruct (f x); simpl; [ constructor | ]; auto.
    intros Hin. apply Hnotin.
    apply in_map_iff in Hin. destruct Hin as (q & Hq & Hin).
    apply filter_In in Hin. destruct Hin as [Hin _].
    apply in_map_iff. now exists q.
Qed.

Lemma only_one_of_that_name (l : list PasswordEntry) (p : PasswordEntry) :
  NoDup (map name l) -> In p l ->
  filter (fun q => String.eqb (name p) (name q)) l = [p].
Proof.
  induction l as [| x l IH]; simpl; intros Hnd Hin.
  - contradiction.
  - inversion Hnd as [| ? ? Hnotin Hrest]; subst.
    destruct Hin as [-> | Hin].
    + rewrite String.eqb_refl. f_equal.
      clear IH Hnd Hrest. induction l as [| y l IHl]; simpl.
      * reflexivity.
      * destruct (String.eqb_spec (name p) (name y)) as [Heq | Hneq].
        -- exfalso. apply Hnotin. left. now symmetry.
        -- apply IHl. intros Hin. apply Hnotin. now right.
    + destruct (String.eqb_spec (name p) (name x)) as [Heq | Hneq].
      * exfalso. apply Hnotin. rewrite <- Heq.
        apply in_map_iff. now exists p.
      * now apply IH.
Qed.

(** X12. Clicking an item of the list leaves the list as it is and marks
    the items by name: an item is highlighted exactly when it has the
    clicked entry's name.  When the names in the collection are pairwise
    different, the clicked item is the only highlighted one. *)
Theorem clicked_item_is_highlighted_by_name
    (toLowerCase : string -> string) (p : PasswordEntry) (s : State) :
  In p (shown toLowerCase s) ->
  let s' := selectEntry p s in
  shown toLowerCase s' = shown toLowerCase s
  /\ (forall q, item_selected s' q = true <-> name q = name p)
  /\ (NoDup (map name (passwords s)) ->
      filter (item_selected s') (shown toLowerCase s') = [p]).
Proof.
  intros Hin. cbv zeta. refine (conj _ (conj _ _)).
  - rewrite !shown_eq. reflexivity.
  - intros q. unfold item_selected, selected_name_is, selectEntry. simpl.
    rewrite String.eqb_eq. split; intros H; now symmetry.
  - intros Hnd.
    assert (Hshown : NoDup (map name (shown toLowerCase s))).
    { rewrite shown_eq. destruct (truthy (searchQuery s)); [ | exact Hnd ].
      now apply NoDup_names_filter. }
    replace (shown toLowerCase (selectEntry p s)) with (shown toLowerCase s)
      by (rewrite !shown_eq; reflexivity).
    exact (only_one_of_that_name _ p Hshown Hin).
Qed.

Lemma clicked_item_is_highlighted_by_name_witness :
  shown toLowerCase_latin (selectEntry email sample_view) = [bank; email]
  /\ filter (item_selected (selectEntry email sample_view))
       (shown toLowerCase_latin (selectEntry email sample_view))
     = [email].
Proof.
  assert (Hin : In email (shown toLowerCase_latin sample_view))
    by (right; left; reflexivity).
  destruct (clicked_item_is_highlighted_by_name toLowerCase_latin email
              sample_view Hin) as (Hsame & _ & Honly).
  split.
  - exact Hsame.
  - apply Honly. simpl.
    constructor.
    + intros [H | []]. discriminate H.
    + constructor; [ intros [] | constructor ].
Defined.

Lemma calls_keep_showPassword
    {W : Type} (env : Environment W) (n : string) (s : State) (w : W) :
  showPassword (state_after (call env loadPasswords s w)) = showPassword s
  /\ showPassword (state_after (call env addPassword s w)) = showPassword s
  /\ showPassword (state_after (call env (deletePassword n) s w)) = showPassword s
  /\ showPassword (state_after (call env generatePassword s w)) = showPassword s.
Proof.
  assert (Hload : forall s0 w0,
             showPassword (state_after (call env loadPasswords s0 w0))
             = showPassword s0).
  { intros s0 w0. rewrite call_loadPasswords.
    destruct (settle env get_passwords w0) as [[v | e] w1]; reflexivity. }
  refine (conj _ (conj _ (conj _ _))).
  - apply Hload.
  - rewrite call_addPassword. cbv zeta.
    destruct (settle env (add_password _) w) as [[u | e] w1];
      [ | reflexivity ].
    rewrite state_after_tuple, Hload. reflexivity.
  - rewrite call_deletePassword.
    destruct (answer env (confirm_text n) w) as [[|] w1]; [ | reflexivity ].
    destruct (settle env (delete_password n) w1) as [[u | e] w2];
      [ | reflexivity ].
    cbv zeta. rewrite state_after_tuple.
    destruct (selected_name_is _ n); simpl; apply Hload.
  - rewrite call_generatePassword.
    destruct (settle env (generate_password _) w) as [[v | e] w1]; reflexivity.
Qed.

(** X13. Only the eye button changes the reveal switch.  load, addEntry,
    deleteEntry and generate leave it as it was whatever their outcome,
    whether it was on or off, and so does clicking an item; the eye button
    inverts it.  Hence the entry clicked after any of these calls is shown
    with its password in clear when the switch was on before the call, and
    as eight bullets when it was off. *)
Theorem revealed_password_stays_revealed
    {W : Type} (env : Environment W) (n : string) (q : PasswordEntry)
    (s : State) (w : W) :
  let line (on : bool) := Some (if on then password q else "••••••••") in
  (showPassword (state_after (call env loadPasswords s w)) = showPassword s
   /\ showPassword (state_after (call env addPassword s w)) = showPassword s
   /\ showPassword (state_after (call env (deletePassword n) s w))
      = showPassword s
   /\ showPassword (state_after (call env generatePassword s w))
      = showPassword s
   /\ showPassword (selectEntry q s) = showPassword s
   /\ showPassword (toggleShowPassword s) = negb (showPassword s))
  /\ (password_shown (selectEntry q s) = line (showPassword s)
      /\ password_shown
           (selectEntry q (state_after (call env loadPasswords s w)))
         = line (showPassword s)
      /\ password_shown
           (selectEntry q (state_after (call env addPassword s w)))
         = line (showPassword s)
      /\ password_shown
           (selectEntry q (state_after (call env (deletePassword n) s w)))
         = line (showPassword s)
      /\ password_shown
           (selectEntry q (state_after (call env generatePassword s w)))
         = line (showPassword s)).
Proof.
  cbv zeta.
  destruct (calls_keep_showPassword env n s w) as (Hl & Ha & Hd & Hg).
  split.
  - repeat split; assumption.
  - unfold password_shown, selectEntry. simpl.
    rewrite Hl, Ha, Hd, Hg. repeat split.
Qed.

Example load_does_not_reveal_a_masked_password :
  showPassword sample_view = false
  /\ password_shown
       (selectEntry email
          (state_after (call (scripted store_ok) loadPasswords sample_view tt)))
     = Some "••••••••"
  /\ password_shown
       (selectEntry email
          (state_after
             (call (scripted store_ok) (deletePassword "Bank")
                (toggleShowPassword sample_view) tt)))
     = Some "y".
Proof. repeat split. Qed.


(** X15. The placeholder of the list.  It is present exactly when the list
    shown is empty.  With an empty query it reads that no passwords are
    saved, and does so exactly when the collection is empty.  With a
    non-empty query it reads that nothing was found, and does so exactly
    when no entry of the collection passes the filter's test, an empty
    collection included. *)
Theorem empty_state_follows_query_and_hits
    (toLowerCase : string -> string) (s : State) :
  (empty_state toLowerCase s = None <-> shown toLowerCase s <> [])
  /\ (truthy (searchQuery s) = false ->
      (empty_state toLowerCase s = Some "Нет сохраненных паролей"
       <-> passwords s = [])
      /\ empty_state toLowerCase s <> Some "Нет результатов по запросу")
  /\ (truthy (searchQuery s) = true ->
      (empty_state toLowerCase s = Some "Нет результатов по запросу"
       <-> forall p, In p (passwords s) ->
                     matches toLowerCase (toLowerCase (searchQuery s)) p = false)
      /\ empty_state toLowerCase s <> Some "Нет сохраненных паролей").
Proof.
  unfold empty_state. rewrite shown_eq. refine (conj _ (conj _ _)).
  - destruct (if truthy (searchQuery s) then _ else _) as [| x l]; simpl.
    + destruct (truthy (searchQuery s)); split;
        [ discriminate | intros H; now contradiction H
        | discriminate | intros H; now contradiction H ].
    + split; [ discriminate | reflexivity ].
  - intros Hq. rewrite Hq.
    destruct (passwords s) as [| x l]; simpl; split;
      try discriminate; split; try discriminate; reflexivity.
  - intros Hq. rewrite Hq. split.
    + split.
      * intros H p Hp.
        destruct (matches toLowerCase (toLowerCase (searchQuery s)) p) eqn:Hm;
          [ | reflexivity ].
        assert (Hin : In p (filter (matches toLowerCase
                                      (toLowerCase (searchQuery s)))
                              (passwords s)))
          by (apply filter_In; now split).
        destruct (filter _ (passwords s)) as [| x l];
          [ contradiction | discriminate H ].
      * intros Hnone.
        assert (Hnil : filter (matches toLowerCase (toLowerCase (searchQuery s)))
                         (passwords s) = []).
        { induction (passwords s) as [| x l IH]; simpl; [ reflexivity | ].
          rewrite (Hnone x (or_introl eq_refl)).
          apply IH. intros p Hp. apply Hnone. now right. }
        now rewrite Hnil.
    + destruct (filter _ (passwords s)); simpl; discriminate.
Qed.

Lemma empty_state_follows_query_and_hits_witness :
  empty_state toLowerCase_latin (set_searchQuery "zzz" sample_view)
  = Some "Нет результатов по запросу"
  /\ empty_state toLowerCase_latin initialState
     = Some "Нет сохраненных паролей"
  /\ empty_state toLowerCase_latin (set_searchQuery "zzz" initialState)
     = Some "Нет результатов по запросу".
Proof.
  split; [ | split ].
  - destruct (empty_state_follows_query_and_hits toLowerCase_latin
                (set_searchQuery "zzz" sample_view)) as (_ & _ & Hq).
    destruct (Hq eq_refl) as [Hiff _]. apply Hiff.
    intros p [<- | [<- | []]]; reflexivity.
  - destruct (empty_state_follows_query_and_hits toLowerCase_latin
                initialState) as (_ & Hq & _).
    destruct (Hq eq_refl) as [Hiff _]. apply Hiff. reflexivity.
  - destruct (empty_state_follows_query_and_hits toLowerCase_latin
                (set_searchQuery "zzz" initialState)) as (_ & _ & Hq).
    destruct (Hq eq_refl) as [Hiff _]. apply Hiff. intros p [].
Defined.

(** X16. The details pane shows the entry as it was when it was clicked.
    load, addEntry and generate leave the password line of the pane exactly
    as it was, whatever the store answers: a reload that brings a changed
    copy of the selected entry, or no such entry at all, does not reach the
    pane. *)
Theorem details_pane_is_a_snapshot
    {W : Type} (env : Environment W) (s : State) (w : W) :
  password_shown (state_after (call env loadPasswords s w)) = password_shown s
  /\ password_shown (state_after (call env addPassword s w)) = password_shown s
  /\ password_shown (state_after (call env generatePassword s w))
     = password_shown s.
Proof.
  destruct (calls_keep_showPassword env EmptyString s w) as (Hl & Ha & _ & Hg).
  unfold password_shown.
  rewrite Hl, Ha, Hg, loadPasswords_keeps_selection.
  refine (conj eq_refl (conj _ _)).
  - rewrite call_addPassword. cbv zeta.
    destruct (settle env (add_password _) w) as [[u | e] w1];
      [ | reflexivity ].
    rewrite state_after_tuple, loadPasswords_keeps_selection. reflexivity.
  - rewrite call_generatePassword.
    destruct (settle env (generate_password _) w) as [[v | e] w1]; reflexivity.
Qed.

Example reload_with_changed_password_keeps_old_details :
  let revealed := toggleShowPassword sample_view in
  let changed := set_password "rotated" bank in
  let store := {| on_get_passwords := Resolved [changed; email];
                  on_add_password := Resolved tt;
                  on_delete_password := Resolved tt;
                  on_generate_password := Resolved "q7Rm2ZpX9sLw4TkB";
                  on_confirm := true |} in
  let after := state_after (call (scripted store) loadPasswords revealed tt) in
  passwords after = [changed; email]
  /\ password_shown after = Some "x".
Proof. split; reflexivity. Qed.
